(** * Span observer dispatch of the jaeger client (contrib_observer.go)

    A shallow embedding of [contrib_observer.go]: the adapter for the old
    observers, the composite observer that queries every registered observer
    when a span starts, and the composite span observer that forwards the
    span's later events to the handles collected at start.

    Go features that the properties depend on are written out:
    - slices carry their capacity and distinguish [nil] from an empty slice;
    - [&compositeSpanObserver{...}] allocates in a heap of locations, so that
      pointer identity can be stated;
    - an interface value is either [nil] or a dynamic value with its methods;
      calling a method on [nil] panics;
    - observers are arbitrary code: they act on a state [U] of their own and
      either return or panic.  The fields of the two composites are
      unexported, so that code cannot reach the dispatcher's heap;
    - every dynamic call through an interface is recorded in the world's call
      log together with its receiver and arguments. *)

From stdpp Require Import base option list gmap strings.

(** ** Go slices *)

Inductive slice (A : Type) : Type :=
  | nil_slice
  | mk_slice (elems : list A) (capacity : nat).
Arguments nil_slice {A}.
Arguments mk_slice {A} elems capacity.

Definition elems {A} (s : slice A) : list A :=
  match s with nil_slice => [] | mk_slice l _ => l end.

Definition len {A} (s : slice A) : nat := length (elems s).

Definition cap {A} (s : slice A) : nat :=
  match s with nil_slice => 0 | mk_slice _ c => c end.

Definition is_nil {A} (s : slice A) : bool :=
  match s with nil_slice => true | mk_slice _ _ => false end.

(** [make([]T, 0, n)] *)
Definition make {A} (n : nat) : slice A := mk_slice [] n.

Section Dispatcher.

(** The opentracing types are opaque to this layer; [Value] is Go's
    [interface{}] (tag values and panic values), [U] the state of the world
    the observers live in. *)
Context {Span StartSpanOptions FinishOptions Value U : Type}.

(** New capacity chosen by the Go runtime when [append] outgrows a slice,
    from the old capacity and the length needed. *)
Context (growslice : nat → nat → nat).

(** ** The builtin [append]

    [append(s, x)]: in place while there is room, otherwise a grown copy. *)
Definition go_append {A} (s : slice A) (x : A) : slice A :=
  if len s <? cap s
  then mk_slice (elems s ++ [x]) (cap s)
  else mk_slice (elems s ++ [x]) (growslice (cap s) (S (len s))).

(** ** Outcomes of observer code *)

Inductive panic_value : Type :=
  | NilDereference
  | PanicValue (v : Value).

Inductive result (A : Type) : Type :=
  | Ok (a : A) (u : U)
  | Abort (p : panic_value) (u : U).
Arguments Ok {A} a u.
Arguments Abort {A} p u.

(** ** The interfaces *)

(** [ContribSpanObserver]: the method table of a dynamic value, and the
    interface value itself ([None] is the nil interface). *)
Record ContribSpanObserver_impl : Type := {
  impl_OnSetOperationName : string → U → result unit;
  impl_OnSetTag : string → Value → U → result unit;
  impl_OnFinish : FinishOptions → U → result unit;
}.

Definition ContribSpanObserver : Type := option ContribSpanObserver_impl.

(** Modelled from the spec: the old observer interfaces of observer.go, which
    is not part of the sources at hand.  [Observer] exposes a single
    span-started operation that returns a per-span handle unconditionally;
    the handle, [SpanObserver], has the three methods of
    [ContribSpanObserver], so that converting one to the other keeps the
    value (and nil stays nil). *)
Definition SpanObserver : Type := ContribSpanObserver.

Record Observer_impl : Type := {
  legacy_OnStartSpan : string → StartSpanOptions → U → result SpanObserver;
}.

Definition Observer : Type := option Observer_impl.

(** wrapper observer for the old observers *)
Record oldObserver : Type := { obs : Observer }.

Record ContribObserver_impl : Type := {
  impl_OnStartSpan :
    Span → string → StartSpanOptions → U → result (ContribSpanObserver * bool);
}.

(** [ContribObserver] values: nil, the wrapper of this file, or any other
    implementation. *)
Inductive ContribObserver : Type :=
  | nilObserver
  | ptr_oldObserver (o : oldObserver)
  | extObserver (m : ContribObserver_impl).

(** compositeObserver is a dispatcher to other observers *)
Record compositeObserver : Type := { observers : slice ContribObserver }.

(** compositeSpanObserver is a dispatcher to other span observers *)
Record compositeSpanObserver : Type :=
  { span_observers : slice ContribSpanObserver }.

(** ** The world: observer state, call log, dispatcher heap *)

Inductive call : Type :=
  | CallOnStartSpan (recv : ContribObserver) (sp : Span)
      (operationName : string) (options : StartSpanOptions)
  | CallLegacyOnStartSpan (recv : Observer)
      (operationName : string) (options : StartSpanOptions)
  | CallOnSetOperationName (recv : ContribSpanObserver) (operationName : string)
  | CallOnSetTag (recv : ContribSpanObserver) (key : string) (value : Value)
  | CallOnFinish (recv : ContribSpanObserver) (options : FinishOptions).

Definition loc : Type := nat.

Record world : Type := World {
  user : U;
  calls : list call;
  heap : gmap nat compositeSpanObserver;
}.

Inductive outcome (A : Type) : Type :=
  | Returned (a : A) (w : world)
  | Panicked (p : panic_value) (w : world).
Arguments Returned {A} a w.
Arguments Panicked {A} p w.

Definition M (A : Type) : Type := world → outcome A.

Definition ret {A} (a : A) : M A := fun w => Returned a w.

Definition bind {A B} (m : M A) (k : A → M B) : M B := fun w =>
  match m w with
  | Returned a w1 => k a w1
  | Panicked p w1 => Panicked p w1
  end.

Notation "x <- m ;;; k" := (bind m (fun x => k))
  (at level 100, m at next level, right associativity).
Notation "m >>> k" := (bind m (fun _ => k))
  (at level 100, right associativity).

Definition final {A} (r : outcome A) : world :=
  match r with Returned _ w => w | Panicked _ w => w end.

Definition record_call (c : call) (w : world) : world :=
  World (user w) (calls w ++ [c]) (heap w).

(** A call through an interface value: the call is logged, a nil receiver
    panics, otherwise the method of the dynamic value runs on the observers'
    state. *)
Definition invoke {A} (c : call) (method : option (U → result A)) : M A :=
  fun w =>
    let w1 := record_call c w in
    match method with
    | None => Panicked NilDereference w1
    | Some f =>
        match f (user w1) with
        | Ok a u => Returned a (World u (calls w1) (heap w1))
        | Abort p u => Panicked p (World u (calls w1) (heap w1))
        end
    end.

(** [&compositeSpanObserver{...}]: a fresh location. *)
Definition alloc (v : compositeSpanObserver) : M loc := fun w =>
  let l := fresh (dom (heap w)) in
  Returned l (World (user w) (calls w) (<[l := v]> (heap w))).

(** [for _, x := range l { body x }] *)
Fixpoint for_range {A} (l : list A) (body : A → M unit) : M unit :=
  match l with
  | [] => ret tt
  | x :: l' => body x >>> for_range l' body
  end.

(** ** Method calls on the interfaces *)

Definition ContribSpanObserver_OnSetOperationName
    (o : ContribSpanObserver) (operationName : string) : M unit :=
  invoke (CallOnSetOperationName o operationName)
         ((fun i => impl_OnSetOperationName i operationName) <$> o).

Definition ContribSpanObserver_OnSetTag
    (o : ContribSpanObserver) (key : string) (value : Value) : M unit :=
  invoke (CallOnSetTag o key value) ((fun i => impl_OnSetTag i key value) <$> o).

Definition ContribSpanObserver_OnFinish
    (o : ContribSpanObserver) (options : FinishOptions) : M unit :=
  invoke (CallOnFinish o options) ((fun i => impl_OnFinish i options) <$> o).

Definition Observer_OnStartSpan
    (o : Observer) (operationName : string) (options : StartSpanOptions)
    : M SpanObserver :=
  invoke (CallLegacyOnStartSpan o operationName options)
         ((fun i => legacy_OnStartSpan i operationName options) <$> o).

(** ** oldObserver *)

Definition oldObserver_OnStartSpan (o : oldObserver) (sp : Span)
    (operationName : string) (options : StartSpanOptions)
    : M (ContribSpanObserver * bool) :=
  h <- Observer_OnStartSpan (obs o) operationName options ;;;
  ret (h, true).

(** Dynamic dispatch of [OnStartSpan] on a [ContribObserver] value. *)
Definition ContribObserver_OnStartSpan (o : ContribObserver) (sp : Span)
    (operationName : string) (options : StartSpanOptions)
    : M (ContribSpanObserver * bool) :=
  match o with
  | nilObserver =>
      invoke (CallOnStartSpan o sp operationName options) None
  | ptr_oldObserver old =>
      (fun w => Returned tt (record_call (CallOnStartSpan o sp operationName options) w))
      >>> oldObserver_OnStartSpan old sp operationName options
  | extObserver m =>
      invoke (CallOnStartSpan o sp operationName options)
             (Some (impl_OnStartSpan m sp operationName options))
  end.

(** ** compositeObserver *)

(** The package-level [noopCompositeSpanObserver]: the location that package
    initialisation allocates first. *)
Definition noopCompositeSpanObserver : loc := 0.

Definition package_init (u : U) : world :=
  World u [] {[ noopCompositeSpanObserver := {| span_observers := nil_slice |} ]}.

Definition compositeObserver_append
    (o : compositeObserver) (contribObserver : ContribObserver)
    : compositeObserver :=
  {| observers := go_append (observers o) contribObserver |}.

(** The loop of [compositeObserver.OnStartSpan]; [n] is [len(o.observers)]
    and [spanObservers] the slice collected so far. *)
Fixpoint collect (l : list ContribObserver) (n : nat)
    (sp : Span) (operationName : string) (options : StartSpanOptions)
    (spanObservers : slice ContribSpanObserver)
    : M (slice ContribSpanObserver) :=
  match l with
  | [] => ret spanObservers
  | o :: l' =>
      r <- ContribObserver_OnStartSpan o sp operationName options ;;;
      let '(spanObs, ok) := r in
      if ok : bool then
        let spanObservers1 :=
          if is_nil spanObservers then make n else spanObservers in
        collect l' n sp operationName options (go_append spanObservers1 spanObs)
      else collect l' n sp operationName options spanObservers
  end.

Definition compositeObserver_OnStartSpan (o : compositeObserver) (sp : Span)
    (operationName : string) (options : StartSpanOptions) : M loc :=
  spanObservers <-
    collect (elems (observers o)) (len (observers o))
            sp operationName options nil_slice ;;;
  if len spanObservers =? 0
  then ret noopCompositeSpanObserver
  else alloc {| span_observers := spanObservers |}.

(** ** compositeSpanObserver *)

(** Dereference of the receiver [o]; a location that holds nothing stands for
    the nil pointer. *)
Definition deref (o : loc) : M compositeSpanObserver := fun w =>
  match heap w !! o with
  | Some v => Returned v w
  | None => Panicked NilDereference w
  end.

Definition compositeSpanObserver_OnSetOperationName
    (o : loc) (operationName : string) : M unit :=
  this <- deref o ;;;
  for_range (elems (span_observers this))
    (fun obs => ContribSpanObserver_OnSetOperationName obs operationName).

Definition compositeSpanObserver_OnSetTag
    (o : loc) (key : string) (value : Value) : M unit :=
  this <- deref o ;;;
  for_range (elems (span_observers this))
    (fun obs => ContribSpanObserver_OnSetTag obs key value).

Definition compositeSpanObserver_OnFinish
    (o : loc) (options : FinishOptions) : M unit :=
  this <- deref o ;;;
  for_range (elems (span_observers this))
    (fun obs => ContribSpanObserver_OnFinish obs options).

(** ** Notifications, uniformly

    The three forwarding methods differ only in the method they forward to;
    [notification] names the method with its arguments. *)

Inductive notification : Type :=
  | SetOperationName (operationName : string)
  | SetTag (key : string) (value : Value)
  | Finish (options : FinishOptions).

Definition notify (n : notification) (o : loc) : M unit :=
  match n with
  | SetOperationName operationName =>
      compositeSpanObserver_OnSetOperationName o operationName
  | SetTag key value => compositeSpanObserver_OnSetTag o key value
  | Finish options => compositeSpanObserver_OnFinish o options
  end.

Definition member_notify (n : notification) (m : ContribSpanObserver) : M unit :=
  match n with
  | SetOperationName operationName =>
      ContribSpanObserver_OnSetOperationName m operationName
  | SetTag key value => ContribSpanObserver_OnSetTag m key value
  | Finish options => ContribSpanObserver_OnFinish m options
  end.

Definition member_call (n : notification) (m : ContribSpanObserver) : call :=
  match n with
  | SetOperationName operationName => CallOnSetOperationName m operationName
  | SetTag key value => CallOnSetTag m key value
  | Finish options => CallOnFinish m options
  end.

Definition member_method (n : notification) (i : ContribSpanObserver_impl)
    : U → result unit :=
  match n with
  | SetOperationName operationName => impl_OnSetOperationName i operationName
  | SetTag key value => impl_OnSetTag i key value
  | Finish options => impl_OnFinish i options
  end.

(** What one member does when its method is called in state [u]. *)
Definition member_outcome (n : notification) (m : ContribSpanObserver) (u : U)
    : result unit :=
  match m with
  | None => Abort NilDereference u
  | Some i => member_method n i u
  end.

(** The members run one after the other, each once, from state [u]. *)
Fixpoint run_members (n : notification) (ms : list ContribSpanObserver) (u : U)
    : result unit :=
  match ms with
  | [] => Ok tt u
  | m :: ms' =>
      match member_outcome n m u with
      | Ok _ u' => run_members n ms' u'
      | Abort p u' => Abort p u'
      end
  end.

(** The members that get called in such a run: all of them, or those up to
    and including the first that aborts. *)
Fixpoint reached (n : notification) (ms : list ContribSpanObserver) (u : U)
    : list ContribSpanObserver :=
  match ms with
  | [] => []
  | m :: ms' =>
      m :: match member_outcome n m u with
           | Ok _ u' => reached n ms' u'
           | Abort _ _ => []
           end
  end.

(** The outcome of a fan-out that started in [w], logged [cs] and left the
    observers as [r] says. *)
Definition settle (w : world) (cs : list call) (r : result unit) : outcome unit :=
  match r with
  | Ok a u => Returned a (World u (calls w ++ cs) (heap w))
  | Abort p u => Panicked p (World u (calls w ++ cs) (heap w))
  end.

(** The heap as package initialisation leaves the no-op composite. *)
Definition heap_ok (w : world) : Prop :=
  heap w !! noopCompositeSpanObserver = Some {| span_observers := nil_slice |}.

(** ** The interest query, as the specification words it

    Every registered observer is asked in registration order; the answers
    are kept in that order. *)
Fixpoint query_all (l : list ContribObserver) (sp : Span)
    (operationName : string) (options : StartSpanOptions)
    : M (list (ContribSpanObserver * bool)) :=
  match l with
  | [] => ret []
  | o :: l' =>
      r <- ContribObserver_OnStartSpan o sp operationName options ;;;
      rs <- query_all l' sp operationName options ;;;
      ret (r :: rs)
  end.

(** The handles of the observers that answered with interest. *)
Definition interested (rs : list (ContribSpanObserver * bool))
    : list ContribSpanObserver :=
  (filter (λ r, r.2 = true) rs).*1.

(** ** Basic facts about the monad and the interface calls *)

Ltac unfold_calls :=
  unfold ContribSpanObserver_OnSetOperationName, ContribSpanObserver_OnSetTag,
    ContribSpanObserver_OnFinish, Observer_OnStartSpan, invoke, record_call,
    bind, ret in *.

Lemma notify_unfold (n : notification) (o : loc) :
  notify n o =
    (this <- deref o ;;;
     for_range (elems (span_observers this)) (member_notify n)).
Proof. by destruct n. Qed.

Lemma member_notify_outcome (n : notification) (m : ContribSpanObserver) (w : world) :
  member_notify n m w = settle w [member_call n m] (member_outcome n m (user w)).
Proof.
  destruct n, m as [i|]; simpl; unfold_calls; reflexivity.
Qed.

(** The loop of a forwarding method is the run of its members, with one log
    entry for every member reached. *)
Lemma for_range_members (n : notification) (ms : list ContribSpanObserver) (w : world) :
  for_range ms (member_notify n) w =
    settle w (member_call n <$> reached n ms (user w)) (run_members n ms (user w)).
Proof.
  revert w. induction ms as [|m ms IH]; intros w; simpl.
  - unfold ret. destruct w; simpl. by rewrite app_nil_r.
  - unfold bind. rewrite member_notify_outcome.
    destruct (member_outcome n m (user w)) as [[] u|p u]; simpl; [|done].
    rewrite IH. simpl.
    destruct (run_members n ms u); simpl; by rewrite <- app_assoc.
Qed.

Lemma run_members_app (n : notification) (pre post : list ContribSpanObserver) (u : U) :
  run_members n (pre ++ post) u =
    match run_members n pre u with
    | Ok _ u1 => run_members n post u1
    | Abort p u1 => Abort p u1
    end.
Proof.
  revert u. induction pre as [|m pre IH]; intros u; simpl; [done|].
  destruct (member_outcome n m u); [apply IH | done].
Qed.

Lemma reached_all (n : notification) (ms : list ContribSpanObserver) (u u' : U) :
  run_members n ms u = Ok tt u' → reached n ms u = ms.
Proof.
  revert u. induction ms as [|m ms IH]; intros u; simpl; [done|].
  destruct (member_outcome n m u) as [[] u1|]; [|done].
  intros H. by rewrite (IH _ H).
Qed.

Lemma reached_app (n : notification) (pre post : list ContribSpanObserver) (u u1 : U) :
  run_members n pre u = Ok tt u1 →
  reached n (pre ++ post) u = pre ++ reached n post u1.
Proof.
  revert u. induction pre as [|m pre IH]; intros u; simpl.
  - by intros [= ->].
  - destruct (member_outcome n m u) as [[] u2|]; [|done].
    intros H. by rewrite (IH _ H).
Qed.

Lemma reached_prefix (n : notification) (ms : list ContribSpanObserver) (u : U) :
  reached n ms u `prefix_of` ms.
Proof.
  revert u. induction ms as [|m ms IH]; intros u; simpl; [done|].
  apply prefix_cons. destruct (member_outcome n m u); [apply IH|apply prefix_nil].
Qed.

(** A forwarding method on a composite that the heap holds. *)
Lemma notify_members (n : notification) (o : loc)
    (this : compositeSpanObserver) (w : world) :
  heap w !! o = Some this →
  notify n o w =
    settle w (member_call n <$> reached n (elems (span_observers this)) (user w))
           (run_members n (elems (span_observers this)) (user w)).
Proof.
  intros Hthis. rewrite notify_unfold. unfold bind, deref. rewrite Hthis.
  apply for_range_members.
Qed.

Lemma heap_settle (w : world) (cs : list call) (r : result unit) :
  heap (final (settle w cs r)) = heap w.
Proof. by destruct r. Qed.

Lemma notify_heap (n : notification) (o : loc) (w : world) :
  heap (final (notify n o w)) = heap w.
Proof.
  destruct (heap w !! o) as [this|] eqn:Hthis.
  - rewrite (notify_members _ _ _ _ Hthis). apply heap_settle.
  - rewrite notify_unfold. unfold bind, deref. by rewrite Hthis.
Qed.

(** ** The loop of [OnStartSpan] against the interest query *)

(** The slice that the loop builds from the answers [rs], starting from
    [spanObservers]: the same steps, without the calls. *)
Definition collected (n : nat) (spanObservers : slice ContribSpanObserver)
    (rs : list (ContribSpanObserver * bool)) : slice ContribSpanObserver :=
  foldl (λ acc r,
           if r.2 : bool
           then go_append (if is_nil acc then make n else acc) r.1
           else acc)
        spanObservers rs.

Lemma interested_cons_true (h : ContribSpanObserver) rs :
  interested ((h, true) :: rs) = h :: interested rs.
Proof. unfold interested. by rewrite filter_cons_True. Qed.

Lemma interested_cons_false (h : ContribSpanObserver) rs :
  interested ((h, false) :: rs) = interested rs.
Proof. unfold interested. by rewrite filter_cons_False. Qed.

Lemma interested_length rs : length (interested rs) ≤ length rs.
Proof. unfold interested. rewrite length_fmap. apply length_filter. Qed.

Lemma interested_none rs :
  Forall (λ r, r.2 = false) rs → interested rs = [].
Proof.
  induction 1 as [|[h b] rs Hb _ IH]; [done|].
  simpl in Hb. subst b. by rewrite interested_cons_false.
Qed.

Lemma collect_query (l : list ContribObserver) (n : nat) (sp : Span)
    (operationName : string) (options : StartSpanOptions)
    (acc : slice ContribSpanObserver) (w : world) :
  collect l n sp operationName options acc w =
    match query_all l sp operationName options w with
    | Returned rs w1 => Returned (collected n acc rs) w1
    | Panicked p w1 => Panicked p w1
    end.
Proof.
  revert acc w. induction l as [|o l IH]; intros acc w; simpl; [done|].
  unfold bind, ret.
  destruct (ContribObserver_OnStartSpan o sp operationName options w)
    as [[spanObs ok] w1|p w1]; [|done].
  destruct ok; rewrite IH;
    by destruct (query_all l sp operationName options w1).
Qed.

Lemma collected_true (n : nat) (acc : slice ContribSpanObserver)
    (h : ContribSpanObserver) rs :
  collected n acc ((h, true) :: rs) =
    collected n (go_append (if is_nil acc then make n else acc) h) rs.
Proof. done. Qed.

Lemma collected_false (n : nat) (acc : slice ContribSpanObserver)
    (h : ContribSpanObserver) rs :
  collected n acc ((h, false) :: rs) = collected n acc rs.
Proof. done. Qed.

Lemma go_append_room {A} (l : list A) (c : nat) (x : A) :
  length l < c → go_append (mk_slice l c) x = mk_slice (l ++ [x]) c.
Proof.
  intros Hc. unfold go_append, len. simpl.
  by destruct (Nat.ltb_spec (length l) c) as [_|?]; [|lia].
Qed.

(** With room for what is still to come, the loop appends in place. *)
Lemma collected_room (n c : nat) (l : list ContribSpanObserver) rs :
  length l + length (interested rs) ≤ c →
  collected n (mk_slice l c) rs = mk_slice (l ++ interested rs) c.
Proof.
  revert l. induction rs as [|[h b] rs IH]; intros l Hc.
  - simpl. by rewrite app_nil_r.
  - destruct b.
    + rewrite interested_cons_true in Hc |- *. simpl in Hc.
      rewrite collected_true. simpl is_nil. cbv iota.
      rewrite go_append_room by lia.
      rewrite IH; [by rewrite <- app_assoc|].
      rewrite length_app. simpl. lia.
    + rewrite interested_cons_false in Hc |- *.
      rewrite collected_false. by apply IH.
Qed.

(** From the nil slice: nil stays nil while nobody is interested; the first
    interested observer makes room for [n] handles. *)
Lemma collected_nil (n : nat) rs :
  length rs ≤ n →
  collected n nil_slice rs =
    match interested rs with
    | [] => nil_slice
    | _ :: _ => mk_slice (interested rs) n
    end.
Proof.
  induction rs as [|[h b] rs IH]; intros Hn; [done|].
  simpl in Hn. destruct b.
  - rewrite interested_cons_true, collected_true. simpl is_nil. cbv iota.
    unfold make. rewrite (go_append_room [] n h) by (simpl; lia).
    apply (collected_room n n [h] rs). simpl.
    pose proof (interested_length rs). lia.
  - rewrite interested_cons_false, collected_false. apply IH. lia.
Qed.

Lemma ContribObserver_OnStartSpan_heap (o : ContribObserver) (sp : Span)
    (operationName : string) (options : StartSpanOptions) (w : world) :
  heap (final (ContribObserver_OnStartSpan o sp operationName options w)) = heap w.
Proof.
  destruct o as [|[[i|]]|m]; simpl;
    unfold oldObserver_OnStartSpan; unfold_calls; simpl; try done.
  - by destruct (legacy_OnStartSpan i operationName options (user w)).
  - by destruct (impl_OnStartSpan m sp operationName options (user w)).
Qed.

Lemma query_all_heap (l : list ContribObserver) (sp : Span)
    (operationName : string) (options : StartSpanOptions) (w : world) :
  heap (final (query_all l sp operationName options w)) = heap w.
Proof.
  revert w. induction l as [|o l IH]; intros w; simpl; [done|].
  unfold bind at 1.
  pose proof (ContribObserver_OnStartSpan_heap o sp operationName options w) as Ho.
  destruct (ContribObserver_OnStartSpan o sp operationName options w)
    as [r w1|p w1]; simpl in Ho; [|done].
  unfold bind, ret. specialize (IH w1).
  destruct (query_all l sp operationName options w1); simpl in *; congruence.
Qed.

Lemma query_all_length (l : list ContribObserver) (sp : Span)
    (operationName : string) (options : StartSpanOptions) (w w1 : world) rs :
  query_all l sp operationName options w = Returned rs w1 →
  length rs = length l.
Proof.
  revert w rs. induction l as [|o l IH]; intros w rs; simpl.
  - by intros [= <- _].
  - unfold bind at 1.
    destruct (ContribObserver_OnStartSpan o sp operationName options w)
      as [r w2|]; [|done].
    unfold bind, ret.
    destruct (query_all l sp operationName options w2) as [rs' w3|] eqn:Hq; [|done].
    intros [= <- <-]. simpl. f_equal. by apply (IH w2).
Qed.

(** [OnStartSpan], in terms of the answers of the registered observers. *)
Lemma OnStartSpan_query (o : compositeObserver) (sp : Span)
    (operationName : string) (options : StartSpanOptions) (w : world) :
  compositeObserver_OnStartSpan o sp operationName options w =
    match query_all (elems (observers o)) sp operationName options w with
    | Returned rs w1 =>
        match interested rs with
        | [] => Returned noopCompositeSpanObserver w1
        | _ :: _ =>
            alloc {| span_observers :=
                       mk_slice (interested rs) (len (observers o)) |} w1
        end
    | Panicked p w1 => Panicked p w1
    end.
Proof.
  unfold compositeObserver_OnStartSpan, bind. rewrite collect_query.
  destruct (query_all (elems (observers o)) sp operationName options w)
    as [rs w1|p w1] eqn:Hq; [|done].
  rewrite collected_nil by (by rewrite (query_all_length _ _ _ _ _ _ _ Hq)).
  by destruct (interested rs).
Qed.

Lemma query_all_app (pre post : list ContribObserver) (sp : Span)
    (operationName : string) (options : StartSpanOptions) (w : world) :
  query_all (pre ++ post) sp operationName options w =
    match query_all pre sp operationName options w with
    | Returned rs w1 =>
        match query_all post sp operationName options w1 with
        | Returned rs' w2 => Returned (rs ++ rs') w2
        | Panicked p w2 => Panicked p w2
        end
    | Panicked p w1 => Panicked p w1
    end.
Proof.
  revert w. induction pre as [|o pre IH]; intros w; simpl.
  - unfold ret. by destruct (query_all post sp operationName options w).
  - unfold bind, ret.
    destruct (ContribObserver_OnStartSpan o sp operationName options w)
      as [r w1|]; [|done].
    rewrite IH.
    destruct (query_all pre sp operationName options w1) as [rs w2|]; [|done].
    by destruct (query_all post sp operationName options w2).
Qed.

(** The first member that aborts ends the fan-out with its panic. *)
Lemma notify_abort_at (n : notification) (o : loc) (this : compositeSpanObserver)
    (w : world) (pre post : list ContribSpanObserver) (m : ContribSpanObserver)
    (u1 u2 : U) (p : panic_value) :
  heap w !! o = Some this →
  elems (span_observers this) = pre ++ m :: post →
  run_members n pre (user w) = Ok tt u1 →
  member_outcome n m u1 = Abort p u2 →
  notify n o w =
    Panicked p (World u2 (calls w ++ (member_call n <$> pre ++ [m])) (heap w)).
Proof.
  intros Hthis Hms Hpre Hm.
  rewrite (notify_members _ _ _ _ Hthis), Hms.
  rewrite run_members_app, Hpre, (reached_app _ _ _ _ _ Hpre).
  simpl. by rewrite Hm.
Qed.

(** The first observer that aborts ends the interest query with its panic. *)
Lemma OnStartSpan_abort_at (o : compositeObserver) (sp : Span)
    (operationName : string) (options : StartSpanOptions) (w w1 w2 : world)
    (pre post : list ContribObserver) (ob : ContribObserver) rs (p : panic_value) :
  elems (observers o) = pre ++ ob :: post →
  query_all pre sp operationName options w = Returned rs w1 →
  ContribObserver_OnStartSpan ob sp operationName options w1 = Panicked p w2 →
  compositeObserver_OnStartSpan o sp operationName options w = Panicked p w2
  ∧ heap w2 = heap w.
Proof.
  intros Hobs Hpre Hob. split.
  - rewrite OnStartSpan_query, Hobs, query_all_app, Hpre. simpl.
    unfold bind. by rewrite Hob.
  - pose proof (query_all_heap pre sp operationName options w) as H1.
    pose proof (ContribObserver_OnStartSpan_heap ob sp operationName options w1) as H2.
    rewrite Hpre in H1. rewrite Hob in H2. simpl in *. congruence.
Qed.

Lemma oldObserver_OnStartSpan_outcome (o : oldObserver) (sp : Span)
    (operationName : string) (options : StartSpanOptions) (w : world)
    (i : Observer_impl) :
  obs o = Some i →
  oldObserver_OnStartSpan o sp operationName options w =
    match legacy_OnStartSpan i operationName options (user w) with
    | Ok h u =>
        Returned (h, true)
          (World u (calls w ++ [CallLegacyOnStartSpan (obs o) operationName options])
                 (heap w))
    | Abort p u =>
        Panicked p
          (World u (calls w ++ [CallLegacyOnStartSpan (obs o) operationName options])
                 (heap w))
    end.
Proof.
  intros Hi. unfold oldObserver_OnStartSpan. unfold_calls. rewrite Hi. simpl.
  by destruct (legacy_OnStartSpan i operationName options (user w)).
Qed.

(** An old observer whose hook hands out nil answers [(nil, true)]. *)
Lemma query_all_nil_handle (l : list ContribObserver) (sp : Span)
    (operationName : string) (options : StartSpanOptions) (w w1 : world) rs
    (legacy : Observer_impl) (k : nat) :
  (∀ u, ∃ u', legacy_OnStartSpan legacy operationName options u = Ok None u') →
  query_all l sp operationName options w = Returned rs w1 →
  l !! k = Some (ptr_oldObserver {| obs := Some legacy |}) →
  rs !! k = Some (None, true).
Proof.
  intros Hnil. revert w rs k. induction l as [|o l IH]; intros w rs k; simpl; [done|].
  unfold bind, ret.
  destruct (ContribObserver_OnStartSpan o sp operationName options w)
    as [r w2|] eqn:Ho; [|done].
  destruct (query_all l sp operationName options w2) as [rs' w3|] eqn:Hq; [|done].
  intros [= <- <-]. destruct k as [|k]; simpl.
  - intros [= ->]. simpl in Ho. unfold bind in Ho.
    rewrite (oldObserver_OnStartSpan_outcome _ _ _ _ _ legacy) in Ho by done.
    simpl in Ho.
    destruct (Hnil (user w)) as [u' Hu]. rewrite Hu in Ho. by injection Ho as <- _.
  - intros Hk. by apply (IH w2).
Qed.

Lemma interested_elem (h : ContribSpanObserver) rs :
  (h, true) ∈ rs → h ∈ interested rs.
Proof.
  intros Hin. unfold interested. apply list_elem_of_fmap.
  exists (h, true). split; [done|]. by apply list_elem_of_filter.
Qed.

Lemma alloc_fresh (v : compositeSpanObserver) (w : world) :
  ∃ l, alloc v w = Returned l (World (user w) (calls w) (<[l := v]> (heap w)))
       ∧ heap w !! l = None.
Proof.
  exists (fresh (dom (heap w))). split; [done|].
  apply not_elem_of_dom, is_fresh.
Qed.

Lemma OnStartSpan_heap (o : compositeObserver) (sp : Span)
    (operationName : string) (options : StartSpanOptions) (w : world) :
  heap w ⊆ heap (final (compositeObserver_OnStartSpan o sp operationName options w)).
Proof.
  rewrite OnStartSpan_query.
  pose proof (query_all_heap (elems (observers o)) sp operationName options w) as Hq.
  destruct (query_all (elems (observers o)) sp operationName options w)
    as [rs w1|p w1]; simpl in Hq |- *; [|by rewrite Hq].
  rewrite <- Hq. destruct (interested rs); [done|].
  unfold alloc. simpl. apply insert_subseteq, not_elem_of_dom, is_fresh.
Qed.

Lemma heap_ok_package_init (u : U) : heap_ok (package_init u).
Proof. unfold heap_ok, package_init. simpl. apply lookup_singleton_eq. Qed.

Lemma heap_ok_notify (n : notification) (o : loc) (w : world) :
  heap_ok w → heap_ok (final (notify n o w)).
Proof. unfold heap_ok. by rewrite notify_heap. Qed.

Lemma heap_ok_OnStartSpan (o : compositeObserver) (sp : Span)
    (operationName : string) (options : StartSpanOptions) (w : world) :
  heap_ok w →
  heap_ok (final (compositeObserver_OnStartSpan o sp operationName options w)).
Proof.
  unfold heap_ok. intros Hw.
  by apply (lookup_weaken _ _ _ _ Hw), OnStartSpan_heap.
Qed.

(** ** The properties of the specification *)

(** C1: with N registered observers of which K answer with interest,
    [OnStartSpan] returns a composite span observer whose members are exactly
    the K handles of the interested observers, in registration order. *)
Theorem C1_members_are_the_interested_in_order
    (o : compositeObserver) (sp : Span) (operationName : string)
    (options : StartSpanOptions) (w w1 : world)
    (rs : list (ContribSpanObserver * bool)) :
  heap_ok w →
  query_all (elems (observers o)) sp operationName options w = Returned rs w1 →
  length rs = len (observers o) ∧
  ∃ (l : loc) (this : compositeSpanObserver) (w2 : world),
    compositeObserver_OnStartSpan o sp operationName options w = Returned l w2
    ∧ heap w2 !! l = Some this
    ∧ elems (span_observers this) = interested rs
    ∧ len (span_observers this) = length (filter (λ r, r.2 = true) rs)
    ∧ interested rs `sublist_of` rs.*1
    ∧ user w2 = user w1 ∧ calls w2 = calls w1.
Proof.
  intros Hok Hq. split; [by apply (query_all_length _ _ _ _ _ _ _ Hq)|].
  pose proof (query_all_heap (elems (observers o)) sp operationName options w) as Hh.
  rewrite Hq in Hh. simpl in Hh.
  assert (interested rs `sublist_of` rs.*1) as Hsub
    by (apply fmap_sublist, sublist_filter).
  rewrite OnStartSpan_query, Hq.
  destruct (interested rs) as [|h hs] eqn:Hint.
  - exists noopCompositeSpanObserver, {| span_observers := nil_slice |}, w1.
    unfold heap_ok in Hok. rewrite Hh. repeat split; try done.
    unfold len. simpl. unfold interested in Hint.
    by rewrite <- (length_fmap fst), Hint.
  - destruct (alloc_fresh
       {| span_observers := mk_slice (h :: hs) (len (observers o)) |} w1)
      as (l & -> & _).
    eexists l, _, _. split; [done|]. simpl. rewrite lookup_insert_eq.
    repeat split; try done.
    unfold len. simpl. unfold interested in Hint.
    by rewrite <- (length_fmap fst (filter _ rs)), Hint.
Qed.

(** C2: a forwarding method calls the matching method on every member of the
    set exactly once, in the order of the set, with the arguments it was
    given. *)
Theorem C2_every_member_once_in_order
    (n : notification) (o : loc) (this : compositeSpanObserver)
    (w : world) (u' : U) :
  heap w !! o = Some this →
  run_members n (elems (span_observers this)) (user w) = Ok tt u' →
  notify n o w =
    Returned tt
      (World u' (calls w ++ (member_call n <$> elems (span_observers this)))
             (heap w)).
Proof.
  intros Hthis Hrun.
  by rewrite (notify_members _ _ _ _ Hthis), Hrun, (reached_all _ _ _ _ Hrun).
Qed.

(** C3: when no observer answers with interest (also when none is
    registered), [OnStartSpan] returns [noopCompositeSpanObserver] itself and
    allocates nothing, whatever the span, the arguments and the world. *)
Theorem C3_no_interest_returns_the_noop
    (o : compositeObserver) (sp : Span) (operationName : string)
    (options : StartSpanOptions) (w w1 : world)
    (rs : list (ContribSpanObserver * bool)) :
  query_all (elems (observers o)) sp operationName options w = Returned rs w1 →
  Forall (λ r, r.2 = false) rs →
  compositeObserver_OnStartSpan o sp operationName options w
    = Returned noopCompositeSpanObserver w1
  ∧ heap w1 = heap w.
Proof.
  intros Hq Hnone. split.
  - by rewrite OnStartSpan_query, Hq, interested_none.
  - pose proof (query_all_heap (elems (observers o)) sp operationName options w) as Hh.
    by rewrite Hq in Hh.
Qed.

(** C4: the wrapper of an old observer calls the wrapped observer's start
    hook exactly once and answers with the hook's handle and interest
    [true]; the span plays no part, and the operation name only reaches the
    hook. *)
Theorem C4_oldObserver_always_interested
    (o : oldObserver) (i : Observer_impl) (sp : Span) (operationName : string)
    (options : StartSpanOptions) (w : world) :
  obs o = Some i →
  oldObserver_OnStartSpan o sp operationName options w =
    match legacy_OnStartSpan i operationName options (user w) with
    | Ok h u =>
        Returned (h, true)
          (World u (calls w ++ [CallLegacyOnStartSpan (obs o) operationName options])
                 (heap w))
    | Abort p u =>
        Panicked p
          (World u (calls w ++ [CallLegacyOnStartSpan (obs o) operationName options])
                 (heap w))
    end
  ∧ ∀ sp' : Span,
      oldObserver_OnStartSpan o sp' operationName options w =
      oldObserver_OnStartSpan o sp operationName options w.
Proof.
  intros Hi. split; [by apply oldObserver_OnStartSpan_outcome|].
  intros sp'. by rewrite !(oldObserver_OnStartSpan_outcome _ _ _ _ _ i Hi).
Qed.

(** C5, as the code has it: when at least one observer answers with
    interest, [OnStartSpan] allocates a new composite span observer, at a
    location that held nothing before and differs from the no-op one, whose
    slice holds the K collected handles and has capacity N, the number of
    registered observers. *)
Theorem C5_capacity_is_the_number_registered
    (o : compositeObserver) (sp : Span) (operationName : string)
    (options : StartSpanOptions) (w w1 : world)
    (rs : list (ContribSpanObserver * bool)) :
  heap_ok w →
  query_all (elems (observers o)) sp operationName options w = Returned rs w1 →
  1 ≤ length (interested rs) →
  ∃ (l : loc) (this : compositeSpanObserver) (w2 : world),
    compositeObserver_OnStartSpan o sp operationName options w = Returned l w2
    ∧ heap w !! l = None
    ∧ l ≠ noopCompositeSpanObserver
    ∧ heap w2 = <[l := this]> (heap w)
    ∧ elems (span_observers this) = interested rs
    ∧ len (span_observers this) = length (interested rs)
    ∧ cap (span_observers this) = len (observers o).
Proof.
  intros Hok Hq HK.
  pose proof (query_all_heap (elems (observers o)) sp operationName options w) as Hh.
  rewrite Hq in Hh. simpl in Hh.
  rewrite OnStartSpan_query, Hq.
  destruct (interested rs) as [|h hs] eqn:Hint; [simpl in HK; lia|].
  destruct (alloc_fresh
     {| span_observers := mk_slice (h :: hs) (len (observers o)) |} w1)
    as (l & -> & Hnew).
  rewrite Hh in Hnew.
  eexists l, _, _. split; [done|]. simpl. rewrite Hh.
  repeat split; try done.
  intros ->. unfold heap_ok in Hok. congruence.
Qed.

(** C6: on the no-op composite span observer any sequence of forwarding
    calls returns normally and leaves the world as it was: no call is made,
    no state changes. *)
Theorem C6_noop_does_nothing (ns : list notification) (w : world) :
  heap_ok w →
  for_range ns (λ n, notify n noopCompositeSpanObserver) w = Returned tt w.
Proof.
  intros Hok. induction ns as [|n ns IH]; simpl; [done|].
  unfold bind. rewrite (notify_members _ _ _ _ Hok). simpl.
  rewrite app_nil_r. by destruct w.
Qed.

(** C7: no operation of the dispatcher changes a composite span observer
    once it is built: the three forwarding methods leave the whole heap as
    it was, whether they return or panic, and [OnStartSpan] only adds to
    it. *)
Theorem C7_members_fixed_after_construction :
  (∀ (n : notification) (o : loc) (w : world),
     heap (final (notify n o w)) = heap w)
  ∧ (∀ (o : compositeObserver) (sp : Span) (operationName : string)
       (options : StartSpanOptions) (w : world),
       heap w ⊆
         heap (final (compositeObserver_OnStartSpan o sp operationName options w))).
Proof.
  split.
  - intros n o w. destruct (heap w !! o) as [this|] eqn:Hthis.
    + rewrite (notify_members _ _ _ _ Hthis).
      by destruct (run_members n (elems (span_observers this)) (user w)).
    + rewrite notify_unfold. unfold bind, deref. by rewrite Hthis.
  - intros o sp operationName options w. apply OnStartSpan_heap.
Qed.

(** C8: [append] puts the observer at the end of the registered observers
    and keeps the earlier ones as they were and in their order; it has no
    uniqueness check: the same observer registered twice is there twice. *)
Theorem C8_append_registers_at_the_end
    (o : compositeObserver) (contribObserver : ContribObserver) :
  elems (observers (compositeObserver_append o contribObserver))
    = elems (observers o) ++ [contribObserver]
  ∧ len (observers (compositeObserver_append o contribObserver))
    = S (len (observers o))
  ∧ elems (observers (compositeObserver_append
                        (compositeObserver_append o contribObserver)
                        contribObserver))
    = elems (observers o) ++ [contribObserver; contribObserver].
Proof.
  assert (∀ (s : slice ContribObserver) x, elems (go_append s x) = elems s ++ [x])
    as Happ.
  { intros s x. unfold go_append. by destruct (len s <? cap s). }
  unfold compositeObserver_append, len. simpl. rewrite !Happ.
  repeat split.
  - rewrite length_app. simpl. lia.
  - by rewrite <- app_assoc.
Qed.

(** C9: there is no recovery in a fan-out.  When the member at some
    position of a composite span observer aborts, the forwarding method
    panics with the member's panic value in the world the member left:
    the members before it and the member itself were called, those after it
    were not.  When an observer aborts during the interest query,
    [OnStartSpan] panics likewise, in the world that observer left, and
    nothing was allocated. *)
Theorem C9_abort_ends_the_fan_out :
  (∀ (n : notification) (o : loc) (this : compositeSpanObserver) (w : world)
     (pre post : list ContribSpanObserver) (m : ContribSpanObserver)
     (u1 u2 : U) (p : panic_value),
     heap w !! o = Some this →
     elems (span_observers this) = pre ++ m :: post →
     run_members n pre (user w) = Ok tt u1 →
     member_outcome n m u1 = Abort p u2 →
     notify n o w =
       Panicked p
         (World u2 (calls w ++ (member_call n <$> pre ++ [m])) (heap w)))
  ∧ (∀ (o : compositeObserver) (sp : Span) (operationName : string)
       (options : StartSpanOptions) (w w1 w2 : world)
       (pre post : list ContribObserver) (ob : ContribObserver)
       (rs : list (ContribSpanObserver * bool)) (p : panic_value),
       elems (observers o) = pre ++ ob :: post →
       query_all pre sp operationName options w = Returned rs w1 →
       ContribObserver_OnStartSpan ob sp operationName options w1 = Panicked p w2 →
       compositeObserver_OnStartSpan o sp operationName options w = Panicked p w2
       ∧ heap w2 = heap w).
Proof.
  split.
  - intros. by eapply notify_abort_at.
  - intros. by eapply OnStartSpan_abort_at.
Qed.

(** C10: an old observer whose start hook returns a nil handle is still
    reported as interested by its wrapper, so the set that [OnStartSpan]
    returns has the nil handle among its members; a later forwarding call on
    that set, once the members ahead of it have returned, calls the method on
    the nil member, which in Go is a nil dereference. *)
Theorem C10_nil_handle_becomes_a_member
    (legacy : Observer_impl) (o : compositeObserver) (sp : Span)
    (operationName : string) (options : StartSpanOptions)
    (w w2 : world) (l : loc) :
  (∀ u, ∃ u', legacy_OnStartSpan legacy operationName options u = Ok None u') →
  ptr_oldObserver {| obs := Some legacy |} ∈ elems (observers o) →
  compositeObserver_OnStartSpan o sp operationName options w = Returned l w2 →
  (∀ w0, ∃ w0',
     oldObserver_OnStartSpan {| obs := Some legacy |} sp operationName options w0
       = Returned (None, true) w0')
  ∧ ∃ (this : compositeSpanObserver) (pre post : list ContribSpanObserver),
      heap w2 !! l = Some this
      ∧ elems (span_observers this) = pre ++ None :: post
      ∧ ∀ (n : notification) (w3 : world) (u1 : U),
          heap w3 !! l = Some this →
          run_members n pre (user w3) = Ok tt u1 →
          notify n l w3 =
            Panicked NilDereference
              (World u1 (calls w3 ++ (member_call n <$> pre ++ [None])) (heap w3)).
Proof.
  intros Hnil Hreg Hstart. split.
  - intros w0. rewrite (oldObserver_OnStartSpan_outcome _ _ _ _ _ legacy) by done.
    destruct (Hnil (user w0)) as [u' ->]. by eexists.
  - rewrite OnStartSpan_query in Hstart.
    destruct (query_all (elems (observers o)) sp operationName options w)
      as [rs w1|] eqn:Hq; [|done].
    apply list_elem_of_lookup in Hreg as [k Hk].
    pose proof (query_all_nil_handle _ _ _ _ _ _ _ _ _ Hnil Hq Hk) as Hrs.
    assert (None ∈ interested rs) as Hin.
    { apply interested_elem, list_elem_of_lookup. by exists k. }
    destruct (interested rs) as [|h hs] eqn:Hint; [by apply elem_of_nil in Hin|].
    apply list_elem_of_split in Hin as (pre & post & Hsplit).
    unfold alloc in Hstart. injection Hstart as <- <-.
    eexists _, pre, post. simpl. rewrite lookup_insert_eq.
    split; [done|]. split; [done|].
    intros n w3 u1 Hthis Hpre.
    by eapply notify_abort_at.
Qed.

(** ** Further properties of the dispatcher *)

Lemma interested_app rs1 rs2 :
  interested (rs1 ++ rs2) = interested rs1 ++ interested rs2.
Proof. unfold interested. by rewrite filter_app, fmap_app. Qed.

Lemma elems_go_append {A} (s : slice A) (x : A) :
  elems (go_append s x) = elems s ++ [x].
Proof. unfold go_append. by destruct (len s <? cap s). Qed.

(** Registering a list of observers one after the other leaves them behind
    the earlier ones, in the order of registration. *)
Theorem append_many_keeps_registration_order
    (o : compositeObserver) (l : list ContribObserver) :
  elems (observers (foldl compositeObserver_append o l)) = elems (observers o) ++ l
  ∧ len (observers (foldl compositeObserver_append o l))
    = len (observers o) + length l.
Proof.
  assert (elems (observers (foldl compositeObserver_append o l))
            = elems (observers o) ++ l) as Hel.
  { revert o. induction l as [|x l IH]; intros o; simpl.
    - by rewrite app_nil_r.
    - rewrite IH. simpl. rewrite elems_go_append. by rewrite <- app_assoc. }
  split; [done|]. unfold len. by rewrite Hel, length_app.
Qed.

(** The log entries of one interest query: the call on the registered
    observer and, behind the wrapper, the call of the old start hook, which
    gets the name and the options but not the span. *)
Definition start_calls (sp : Span) (operationName : string)
    (options : StartSpanOptions) (ob : ContribObserver) : list call :=
  CallOnStartSpan ob sp operationName options ::
  match ob with
  | ptr_oldObserver old => [CallLegacyOnStartSpan (obs old) operationName options]
  | _ => []
  end.

Lemma ContribObserver_OnStartSpan_calls (ob : ContribObserver) (sp : Span)
    (operationName : string) (options : StartSpanOptions) (w w1 : world)
    (r : ContribSpanObserver * bool) :
  ContribObserver_OnStartSpan ob sp operationName options w = Returned r w1 →
  calls w1 = calls w ++ start_calls sp operationName options ob.
Proof.
  destruct ob as [|[[i|]]|m]; simpl;
    unfold oldObserver_OnStartSpan; unfold_calls; simpl; try done.
  - destruct (legacy_OnStartSpan i operationName options (user w)); [|done].
    intros [= _ <-]. simpl. by rewrite <- app_assoc.
  - destruct (impl_OnStartSpan m sp operationName options (user w)); [|done].
    by intros [= _ <-].
Qed.

Lemma query_all_calls (l : list ContribObserver) (sp : Span)
    (operationName : string) (options : StartSpanOptions) (w w1 : world) rs :
  query_all l sp operationName options w = Returned rs w1 →
  calls w1 = calls w ++ (l ≫= start_calls sp operationName options).
Proof.
  revert w rs. induction l as [|ob l IH]; intros w rs; simpl.
  - intros [= _ <-]. by rewrite app_nil_r.
  - unfold bind, ret.
    destruct (ContribObserver_OnStartSpan ob sp operationName options w)
      as [r w2|] eqn:Hob; [|done].
    destruct (query_all l sp operationName options w2) as [rs' w3|] eqn:Hq; [|done].
    intros [= _ <-].
    rewrite (IH _ _ Hq), (ContribObserver_OnStartSpan_calls _ _ _ _ _ _ _ Hob).
    by rewrite <- app_assoc.
Qed.

Lemma OnStartSpan_returned (o : compositeObserver) (sp : Span)
    (operationName : string) (options : StartSpanOptions) (w w2 : world) (l : loc) :
  compositeObserver_OnStartSpan o sp operationName options w = Returned l w2 →
  ∃ rs w1,
    query_all (elems (observers o)) sp operationName options w = Returned rs w1
    ∧ user w2 = user w1 ∧ calls w2 = calls w1.
Proof.
  rewrite OnStartSpan_query.
  destruct (query_all (elems (observers o)) sp operationName options w)
    as [rs w1|]; [|done].
  intros Hret. exists rs, w1. split; [done|].
  destruct (interested rs); [by injection Hret as _ <-|].
  unfold alloc in Hret. by injection Hret as _ <-.
Qed.

(** A span start that returns has asked every registered observer exactly
    once, in registration order, the uninterested ones too, each with the
    span, the operation name and the options the composite was given. *)
Theorem OnStartSpan_asks_every_observer_once
    (o : compositeObserver) (sp : Span) (operationName : string)
    (options : StartSpanOptions) (w w2 : world) (l : loc) :
  compositeObserver_OnStartSpan o sp operationName options w = Returned l w2 →
  calls w2 =
    calls w ++ (elems (observers o) ≫= start_calls sp operationName options).
Proof.
  intros Hret.
  destruct (OnStartSpan_returned _ _ _ _ _ _ _ Hret) as (rs & w1 & Hq & _ & ->).
  by apply (query_all_calls _ _ _ _ _ _ _ Hq).
Qed.

(** An observer registered later is asked after the earlier ones, which
    answer as they did without it; its handle, if it is interested, comes
    last in the set. *)
Theorem OnStartSpan_after_append
    (o : compositeObserver) (x : ContribObserver) (sp : Span)
    (operationName : string) (options : StartSpanOptions) (w w1 w2 : world)
    (rs : list (ContribSpanObserver * bool)) (h : ContribSpanObserver) (ok : bool) :
  heap_ok w →
  query_all (elems (observers o)) sp operationName options w = Returned rs w1 →
  ContribObserver_OnStartSpan x sp operationName options w1 = Returned (h, ok) w2 →
  ∃ (l : loc) (this : compositeSpanObserver) (w3 : world),
    compositeObserver_OnStartSpan (compositeObserver_append o x)
        sp operationName options w
      = Returned l w3
    ∧ heap w3 !! l = Some this
    ∧ elems (span_observers this) = interested rs ++ (if ok then [h] else [])
    ∧ user w3 = user w2 ∧ calls w3 = calls w2.
Proof.
  intros Hok Hq Hx.
  assert (query_all (elems (observers (compositeObserver_append o x)))
            sp operationName options w
          = Returned (rs ++ [(h, ok)]) w2) as Hq'.
  { simpl. rewrite elems_go_append, query_all_app, Hq. simpl.
    unfold bind, ret. by rewrite Hx. }
  assert (interested (rs ++ [(h, ok)]) = interested rs ++ (if ok then [h] else []))
    as Hint.
  { rewrite interested_app. f_equal.
    destruct ok; [by rewrite interested_cons_true | by rewrite interested_cons_false]. }
  assert (heap w2 = heap w) as Hh.
  { pose proof (query_all_heap (elems (observers (compositeObserver_append o x)))
                  sp operationName options w) as H.
    by rewrite Hq' in H. }
  rewrite OnStartSpan_query, Hq', Hint.
  destruct (interested rs ++ (if ok then [h] else [])) as [|h' hs] eqn:Hms.
  - exists noopCompositeSpanObserver, {| span_observers := nil_slice |}, w2.
    unfold heap_ok in Hok. by rewrite Hh.
  - destruct (alloc_fresh
       {| span_observers :=
            mk_slice (h' :: hs) (len (observers (compositeObserver_append o x))) |} w2)
      as (l & -> & _).
    eexists l, _, _. split; [done|]. simpl. by rewrite lookup_insert_eq.
Qed.

(** [append] takes a nil observer, or a wrapper around a nil old one, as it
    takes any other; the next span start asks the earlier observers and then
    panics with a nil dereference on it.  No set is returned, nothing is
    allocated, and the observers registered after it are not asked. *)
Theorem OnStartSpan_panics_on_nil_observer
    (o : compositeObserver) (x : ContribObserver) (sp : Span)
    (operationName : string) (options : StartSpanOptions) (w w1 : world)
    (pre post : list ContribObserver) (rs : list (ContribSpanObserver * bool)) :
  x = nilObserver ∨ x = ptr_oldObserver {| obs := None |} →
  elems (observers o) = pre ++ x :: post →
  query_all pre sp operationName options w = Returned rs w1 →
  compositeObserver_OnStartSpan o sp operationName options w =
    Panicked NilDereference
      (World (user w1) (calls w1 ++ start_calls sp operationName options x) (heap w)).
Proof.
  intros Hx Hobs Hpre.
  pose proof (query_all_heap pre sp operationName options w) as Hh.
  rewrite Hpre in Hh. simpl in Hh.
  rewrite OnStartSpan_query, Hobs, query_all_app, Hpre. simpl. unfold bind.
  destruct Hx as [-> | ->]; simpl;
    unfold oldObserver_OnStartSpan; unfold_calls; simpl; rewrite Hh;
    [done | by rewrite <- app_assoc].
Qed.

(** The answer of a wrapped old observer always carries interest. *)
Lemma query_all_old_observer (l : list ContribObserver) (sp : Span)
    (operationName : string) (options : StartSpanOptions) (w w1 : world) rs
    (old : oldObserver) (k : nat) :
  query_all l sp operationName options w = Returned rs w1 →
  l !! k = Some (ptr_oldObserver old) →
  ∃ h, rs !! k = Some (h, true).
Proof.
  revert w rs k. induction l as [|ob l IH]; intros w rs k; simpl; [done|].
  unfold bind, ret.
  destruct (ContribObserver_OnStartSpan ob sp operationName options w)
    as [r w2|] eqn:Hob; [|done].
  destruct (query_all l sp operationName options w2) as [rs' w3|] eqn:Hq; [|done].
  intros [= <- <-]. destruct k as [|k]; simpl.
  - intros [= ->]. simpl in Hob. unfold bind in Hob.
    unfold oldObserver_OnStartSpan in Hob. unfold_calls.
    destruct (obs old) as [i|]; simpl in Hob; [|done].
    destruct (legacy_OnStartSpan i operationName options (user w)); [|done].
    injection Hob as <- _. by eexists.
  - intros Hk. by apply (IH w2).
Qed.

(** With an old observer registered, a span start that returns never hands
    out the no-op composite: the wrapper is always interested, so a set is
    allocated for every span. *)
Theorem old_observer_rules_out_the_noop
    (o : compositeObserver) (old : oldObserver) (sp : Span)
    (operationName : string) (options : StartSpanOptions) (w w2 : world) (l : loc) :
  heap_ok w →
  ptr_oldObserver old ∈ elems (observers o) →
  compositeObserver_OnStartSpan o sp operationName options w = Returned l w2 →
  l ≠ noopCompositeSpanObserver
  ∧ heap w !! l = None
  ∧ ∃ this, heap w2 !! l = Some this ∧ 1 ≤ len (span_observers this).
Proof.
  intros Hok Hreg Hstart. rewrite OnStartSpan_query in Hstart.
  destruct (query_all (elems (observers o)) sp operationName options w)
    as [rs w1|] eqn:Hq; [|done].
  pose proof (query_all_heap (elems (observers o)) sp operationName options w) as Hh.
  rewrite Hq in Hh. simpl in Hh.
  apply list_elem_of_lookup in Hreg as [k Hk].
  destruct (query_all_old_observer _ _ _ _ _ _ _ _ _ Hq Hk) as [h Hrs].
  assert (h ∈ interested rs) as Hin.
  { apply interested_elem, list_elem_of_lookup. by exists k. }
  destruct (interested rs) as [|h' hs]; [by apply elem_of_nil in Hin|].
  destruct (alloc_fresh
     {| span_observers := mk_slice (h' :: hs) (len (observers o)) |} w1)
    as (l' & Halloc & Hnew).
  rewrite Halloc in Hstart. injection Hstart as <- <-. simpl.
  rewrite Hh in Hnew.
  split; [|split; [done|]].
  - intros ->. unfold heap_ok in Hok. congruence.
  - eexists. rewrite lookup_insert_eq. split; [done|]. unfold len. simpl. lia.
Qed.

(** ** What the heap can look like

    The worlds the dispatcher can be in: the one package initialisation
    leaves, and those after a span start or a forwarding call, returned or
    panicked. *)
Inductive reachable : world → Prop :=
  | reachable_init (u : U) : reachable (package_init u)
  | reachable_start (o : compositeObserver) (sp : Span) (operationName : string)
      (options : StartSpanOptions) (w : world) :
      reachable w →
      reachable (final (compositeObserver_OnStartSpan o sp operationName options w))
  | reachable_notify (n : notification) (l : loc) (w : world) :
      reachable w → reachable (final (notify n l w)).

(** The no-op composite is the only composite without members that is ever
    built: it stays without members, and every other composite in the heap
    holds at least one handle and no more than its capacity. *)
Theorem only_the_noop_is_empty (w : world) :
  reachable w →
  heap_ok w
  ∧ ∀ (l : loc) (this : compositeSpanObserver),
      heap w !! l = Some this →
      l ≠ noopCompositeSpanObserver →
      1 ≤ len (span_observers this) ≤ cap (span_observers this).
Proof.
  induction 1 as [u|o sp operationName options w _ [Hok IH]|n l w _ [Hok IH]].
  - split; [apply heap_ok_package_init|].
    intros l this Hl Hne. unfold package_init in Hl. simpl in Hl.
    by rewrite lookup_singleton_ne in Hl.
  - split; [by apply heap_ok_OnStartSpan|].
    rewrite OnStartSpan_query.
    pose proof (query_all_heap (elems (observers o)) sp operationName options w) as Hh.
    destruct (query_all (elems (observers o)) sp operationName options w)
      as [rs w1|p w1] eqn:Hq; simpl in Hh.
    + pose proof (query_all_length _ _ _ _ _ _ _ Hq) as Hlen.
      pose proof (interested_length rs) as HK.
      destruct (interested rs) as [|h hs]; simpl; [rewrite Hh; apply IH|].
      intros l this Hl Hne.
      destruct (decide (l = fresh (dom (heap w1)))) as [->|Hl'].
      * rewrite lookup_insert_eq in Hl. injection Hl as <-.
        unfold len in *. simpl in *. lia.
      * rewrite lookup_insert_ne in Hl by done. rewrite Hh in Hl.
        by apply (IH l this).
    + simpl. rewrite Hh. apply IH.
  - split; [by apply heap_ok_notify|]. rewrite notify_heap. apply IH.
Qed.

(** ** Start and forward together *)

(** A forwarding call on the set that a span start returned reaches the
    handles of exactly the observers that were interested in that span, once
    each and in registration order. *)
Theorem start_then_notify_reaches_the_interested
    (n : notification) (o : compositeObserver) (sp : Span)
    (operationName : string) (options : StartSpanOptions) (w w1 : world)
    (rs : list (ContribSpanObserver * bool)) (u' : U) :
  heap_ok w →
  query_all (elems (observers o)) sp operationName options w = Returned rs w1 →
  run_members n (interested rs) (user w1) = Ok tt u' →
  ∃ w3,
    (l <- compositeObserver_OnStartSpan o sp operationName options ;;; notify n l) w
      = Returned tt w3
    ∧ user w3 = u'
    ∧ calls w3 = calls w1 ++ (member_call n <$> interested rs)
    ∧ heap w ⊆ heap w3.
Proof.
  intros Hok Hq Hrun.
  pose proof (query_all_heap (elems (observers o)) sp operationName options w) as Hh.
  rewrite Hq in Hh. simpl in Hh.
  unfold bind. rewrite OnStartSpan_query, Hq.
  destruct (interested rs) as [|h hs] eqn:Hint.
  - assert (heap w1 !! noopCompositeSpanObserver
              = Some {| span_observers := nil_slice |}) as Hnoop
      by (by rewrite Hh).
    rewrite (notify_members _ _ _ _ Hnoop). simpl.
    simpl in Hrun. injection Hrun as <-.
    eexists. split; [done|]. simpl. by rewrite Hh.
  - destruct (alloc_fresh
       {| span_observers := mk_slice (h :: hs) (len (observers o)) |} w1)
      as (l & -> & Hnew).
    erewrite notify_members by (simpl; apply lookup_insert_eq).
    cbn [span_observers elems user]. rewrite Hrun, (reached_all _ _ _ _ Hrun).
    eexists. split; [done|]. simpl. repeat split; try done.
    rewrite <- Hh. by apply insert_subseteq.
Qed.

(** The members run through a list of notifications, one notification after
    the other. *)
Fixpoint run_notifications (ns : list notification)
    (ms : list ContribSpanObserver) (u : U) : result unit :=
  match ns with
  | [] => Ok tt u
  | n :: ns' =>
      match run_members n ms u with
      | Ok _ u' => run_notifications ns' ms u'
      | Abort p u' => Abort p u'
      end
  end.

(** The set keeps nothing between calls: a series of forwarding calls on one
    set reaches every member once per call, call after call, also when the
    same notification (a finish, say) comes again. *)
Theorem notifications_forward_every_time
    (ns : list notification) (l : loc) (this : compositeSpanObserver)
    (w : world) (u' : U) :
  heap w !! l = Some this →
  run_notifications ns (elems (span_observers this)) (user w) = Ok tt u' →
  for_range ns (λ n, notify n l) w =
    Returned tt
      (World u'
         (calls w ++ (ns ≫= λ n, member_call n <$> elems (span_observers this)))
         (heap w)).
Proof.
  revert w. induction ns as [|n ns IH]; intros w Hthis Hrun; simpl in *.
  - injection Hrun as <-. unfold ret. rewrite app_nil_r. by destruct w.
  - destruct (run_members n (elems (span_observers this)) (user w))
      as [[] u1|] eqn:Hn; [|done].
    unfold bind. rewrite (notify_members _ _ _ _ Hthis), Hn, (reached_all _ _ _ _ Hn).
    simpl. rewrite IH by done. simpl. by rewrite <- app_assoc.
Qed.

(** Whatever the members do, a forwarding call only ever calls members of
    its set, front to back without a gap and none of them twice: the calls
    it adds to the log are those to a prefix of the members, and to all of
    them when it returns. *)
Theorem notify_calls_a_prefix_of_the_members
    (n : notification) (l : loc) (this : compositeSpanObserver) (w : world) :
  heap w !! l = Some this →
  ∃ called : list ContribSpanObserver,
    called `prefix_of` elems (span_observers this)
    ∧ calls (final (notify n l w)) = calls w ++ (member_call n <$> called)
    ∧ ∀ w', notify n l w = Returned tt w' → called = elems (span_observers this).
Proof.
  intros Hthis.
  exists (reached n (elems (span_observers this)) (user w)).
  split; [apply reached_prefix|].
  rewrite (notify_members _ _ _ _ Hthis).
  destruct (run_members n (elems (span_observers this)) (user w))
    as [[] u|p u] eqn:Hrun; simpl; (split; [done|]); [|done].
  intros _ _. by apply (reached_all _ _ _ _ Hrun).
Qed.

End Dispatcher.

Arguments Ok {Value U A} a u.
Arguments Abort {Value U A} p u.
Arguments Returned {Span StartSpanOptions FinishOptions Value U A} a w.
Arguments Panicked {Span StartSpanOptions FinishOptions Value U A} p w.

(** ** A tracer set-up to run the dispatcher on

    Spans are numbered, start options are tags, finish options a time, values
    strings; the observers keep a journal.  Observer [X] is interested in the
    operation "foo" only, [L] is an old observer behind the wrapper. *)

Definition Journal : Type := list string.
Definition Tags : Type := list (string * string).

Definition demo_world : Type := @world nat Tags nat string Journal.
Definition demo_handle : Type := @ContribSpanObserver nat string Journal.
Definition demo_observer : Type := @ContribObserver nat Tags nat string Journal.

Definition writes (line : string) (u : Journal) : @result string Journal unit :=
  Ok tt (u ++ [line]).

Definition handle (who : string) : demo_handle :=
  Some {| impl_OnSetOperationName := λ name, writes (who +:+ " name " +:+ name);
          impl_OnSetTag :=
            λ key value, writes (who +:+ " tag " +:+ key +:+ "=" +:+ value);
          impl_OnFinish := λ _, writes (who +:+ " finish") |}.

Definition faulty_handle : demo_handle :=
  Some {| impl_OnSetOperationName := λ _ u, Abort (PanicValue "boom") u;
          impl_OnSetTag := λ _ _ u, Abort (PanicValue "boom") u;
          impl_OnFinish := λ _ u, Abort (PanicValue "boom") u |}.

Definition observerX : demo_observer :=
  extObserver
    {| impl_OnStartSpan := λ _ operationName _ u,
         if String.eqb operationName "foo"
         then Ok (handle "X", true) (u ++ ["X start"])
         else Ok (None, false) u |}.

Definition legacyL : @Observer_impl Tags nat string Journal :=
  {| legacy_OnStartSpan := λ _ _ u, Ok (handle "L") (u ++ ["L start"]) |}.

Definition observerL : demo_observer := ptr_oldObserver {| obs := Some legacyL |}.

Definition legacy_nil : @Observer_impl Tags nat string Journal :=
  {| legacy_OnStartSpan := λ _ _ u, Ok None u |}.

Definition observer_nil : demo_observer :=
  ptr_oldObserver {| obs := Some legacy_nil |}.

Definition faulty_observer : demo_observer :=
  extObserver {| impl_OnStartSpan := λ _ _ _ u, Abort (PanicValue "boom") u |}.

Definition doubling (oldcap needed : nat) : nat := Nat.max needed (2 * oldcap).

Definition register_all (l : list demo_observer) : compositeObserver :=
  foldl (compositeObserver_append doubling) {| observers := nil_slice |} l.

Definition tracer : compositeObserver := register_all [observerX; observerL].

Definition w0 : demo_world := package_init [].

(** A world whose heap holds, next to the no-op composite, the set [ms]. *)
Definition world_with (ms : list demo_handle) : demo_world :=
  World [] []
    (<[1 := {| span_observers := mk_slice ms (length ms) |}]> (heap w0)).

(** Scenario A of the specification. *)
Example scenario_A_foo :
  ∃ w, compositeObserver_OnStartSpan doubling tracer 1 "foo" [] w0 = Returned 1 w
       ∧ heap w !! 1 =
           Some {| span_observers := mk_slice [handle "X"; handle "L"] 2 |}.
Proof. eexists. split; reflexivity. Qed.

Example scenario_A_bar :
  ∃ w, compositeObserver_OnStartSpan doubling tracer 2 "bar" [] w0 = Returned 1 w
       ∧ heap w !! 1 = Some {| span_observers := mk_slice [handle "L"] 2 |}.
Proof. eexists. split; reflexivity. Qed.

Example scenario_A_finish :
  user (final (notify (Finish 9) 1 (world_with [handle "X"; handle "L"])))
    = ["X finish"; "L finish"].
Proof. reflexivity. Qed.

(** Scenario B of the specification. *)
Example scenario_B :
  compositeObserver_OnStartSpan doubling (register_all []) 1 "foo" [] w0
    = Returned noopCompositeSpanObserver w0
  ∧ notify (SetTag "k" "v") noopCompositeSpanObserver w0 = Returned tt w0.
Proof. split; reflexivity. Qed.

(** ** The properties at work on the set-up *)

Definition answers_foo : list (demo_handle * bool) :=
  [(handle "X", true); (handle "L", true)].

Definition queried_foo : demo_world :=
  World ["X start"; "L start"]
        [CallOnStartSpan observerX 1 "foo" [];
         CallOnStartSpan observerL 1 "foo" [];
         CallLegacyOnStartSpan (Some legacyL) "foo" []]
        (heap w0).

Lemma C1_witness :
  heap_ok w0
  ∧ query_all (elems (observers tracer)) 1 "foo" [] w0
      = Returned answers_foo queried_foo
  ∧ ∃ (l : loc) (this : compositeSpanObserver) (w2 : demo_world),
      compositeObserver_OnStartSpan doubling tracer 1 "foo" [] w0 = Returned l w2
      ∧ heap w2 !! l = Some this
      ∧ elems (span_observers this) = [handle "X"; handle "L"]
      ∧ len (span_observers this) = 2.
Proof.
  assert (heap_ok w0) as Hok by reflexivity.
  assert (query_all (elems (observers tracer)) 1 "foo" [] w0
            = Returned answers_foo queried_foo) as Hq by reflexivity.
  split; [exact Hok|]. split; [exact Hq|].
  destruct (C1_members_are_the_interested_in_order
              doubling tracer 1 "foo" [] w0 queried_foo answers_foo Hok Hq)
    as (_ & l & this & w2 & Hstart & Hl & Hms & Hlen & _).
  exists l, this, w2. repeat split; assumption.
Defined.

Lemma C2_witness :
  heap (world_with [handle "X"; handle "L"]) !! 1
    = Some {| span_observers := mk_slice [handle "X"; handle "L"] 2 |}
  ∧ run_members (Finish 9) [handle "X"; handle "L"] []
      = Ok tt ["X finish"; "L finish"]
  ∧ notify (Finish 9) 1 (world_with [handle "X"; handle "L"])
      = Returned tt
          (World ["X finish"; "L finish"]
                 [CallOnFinish (handle "X") 9; CallOnFinish (handle "L") 9]
                 (heap (world_with [handle "X"; handle "L"]))).
Proof.
  split; [reflexivity|]. split; [reflexivity|].
  apply (C2_every_member_once_in_order (Finish 9) 1
           {| span_observers := mk_slice [handle "X"; handle "L"] 2 |}
           (world_with [handle "X"; handle "L"]) ["X finish"; "L finish"]);
    reflexivity.
Defined.

Definition quiet_tracer : compositeObserver := register_all [observerX].

Definition queried_bar_once : demo_world :=
  World [] [CallOnStartSpan observerX 2 "bar" []] (heap w0).

Definition queried_baz_next : demo_world :=
  World [] [CallOnStartSpan observerX 2 "bar" [];
            CallOnStartSpan observerX 3 "baz" [("k", "v")]] (heap w0).

(** Two span starts in a row, for different spans: both get the no-op
    composite itself. *)
Lemma C3_witness :
  query_all (elems (observers quiet_tracer)) 2 "bar" [] w0
    = Returned [(None, false)] queried_bar_once
  ∧ query_all (elems (observers quiet_tracer)) 3 "baz" [("k", "v")] queried_bar_once
    = Returned [(None, false)] queried_baz_next
  ∧ Forall (λ r : demo_handle * bool, r.2 = false) [(None, false)]
  ∧ compositeObserver_OnStartSpan doubling quiet_tracer 2 "bar" [] w0
      = Returned noopCompositeSpanObserver queried_bar_once
  ∧ compositeObserver_OnStartSpan doubling quiet_tracer 3 "baz" [("k", "v")]
        queried_bar_once
      = Returned noopCompositeSpanObserver queried_baz_next
  ∧ heap queried_baz_next = heap w0.
Proof.
  assert (Forall (λ r : demo_handle * bool, r.2 = false) [(None, false)]) as Hnone
    by (repeat constructor).
  split; [reflexivity|]. split; [reflexivity|]. split; [exact Hnone|].
  split; [|split; [|reflexivity]].
  - apply (C3_no_interest_returns_the_noop doubling quiet_tracer
             2 "bar" [] w0 queried_bar_once [(None, false)]);
      [reflexivity | exact Hnone].
  - apply (C3_no_interest_returns_the_noop doubling quiet_tracer
             3 "baz" [("k", "v")] queried_bar_once queried_baz_next [(None, false)]);
      [reflexivity | exact Hnone].
Defined.

Lemma C4_witness :
  obs {| obs := Some legacyL |} = Some legacyL
  ∧ oldObserver_OnStartSpan {| obs := Some legacyL |} 1 "foo" [] w0
      = Returned (handle "L", true)
          (World ["L start"] [CallLegacyOnStartSpan (Some legacyL) "foo" []]
                 (heap w0)).
Proof.
  split; [reflexivity|].
  exact (proj1 (C4_oldObserver_always_interested
                  {| obs := Some legacyL |} legacyL 1 "foo" [] w0 eq_refl)).
Defined.

Definition answers_bar : list (demo_handle * bool) :=
  [(None, false); (handle "L", true)].

Definition queried_bar : demo_world :=
  World ["L start"]
        [CallOnStartSpan observerX 2 "bar" [];
         CallOnStartSpan observerL 2 "bar" [];
         CallLegacyOnStartSpan (Some legacyL) "bar" []]
        (heap w0).

Lemma C5_witness :
  heap_ok w0
  ∧ query_all (elems (observers tracer)) 2 "bar" [] w0
      = Returned answers_bar queried_bar
  ∧ 1 ≤ length (interested answers_bar)
  ∧ ∃ (l : loc) (this : compositeSpanObserver) (w2 : demo_world),
      compositeObserver_OnStartSpan doubling tracer 2 "bar" [] w0 = Returned l w2
      ∧ heap w0 !! l = None
      ∧ l ≠ noopCompositeSpanObserver
      ∧ heap w2 = <[l := this]> (heap w0)
      ∧ elems (span_observers this) = [handle "L"]
      ∧ len (span_observers this) = 1
      ∧ cap (span_observers this) = 2.
Proof.
  assert (heap_ok w0) as Hok by reflexivity.
  assert (query_all (elems (observers tracer)) 2 "bar" [] w0
            = Returned answers_bar queried_bar) as Hq by reflexivity.
  assert (1 ≤ length (interested answers_bar)) as HK by (apply le_n).
  split; [exact Hok|]. split; [exact Hq|]. split; [exact HK|].
  exact (C5_capacity_is_the_number_registered
           doubling tracer 2 "bar" [] w0 queried_bar answers_bar Hok Hq HK).
Defined.

(** C5 as the specification words it fails: of the two registered observers
    one is interested in "bar", and the new set has room for two handles. *)
Lemma C5_counterexample :
  ∃ (l : loc) (this : compositeSpanObserver) (w2 : demo_world),
    compositeObserver_OnStartSpan doubling tracer 2 "bar" [] w0 = Returned l w2
    ∧ heap w2 !! l = Some this
    ∧ length (interested answers_bar) = 1
    ∧ elems (span_observers this) = interested answers_bar
    ∧ cap (span_observers this) = 2
    ∧ cap (span_observers this) ≠ length (interested answers_bar).
Proof.
  exists 1, {| span_observers := mk_slice [handle "L"] 2 |}.
  eexists. repeat split; try reflexivity. simpl. lia.
Qed.

Lemma C6_witness :
  heap_ok w0
  ∧ for_range [SetTag "k" "v"; Finish 3; SetOperationName "op"; SetTag "k" "v"]
      (λ n, notify n noopCompositeSpanObserver) w0
    = Returned tt w0.
Proof.
  assert (heap_ok w0) as Hok by reflexivity.
  split; [exact Hok|].
  exact (C6_noop_does_nothing
           [SetTag "k" "v"; Finish 3; SetOperationName "op"; SetTag "k" "v"]
           w0 Hok).
Defined.

Definition tracer_faulty : compositeObserver :=
  register_all [observerX; faulty_observer; observerL].

Lemma C9_witness :
  notify (SetTag "k" "v") 1 (world_with [handle "X"; faulty_handle; handle "L"])
    = Panicked (PanicValue "boom")
        (World ["X tag k=v"]
               [CallOnSetTag (handle "X") "k" "v";
                CallOnSetTag faulty_handle "k" "v"]
               (heap (world_with [handle "X"; faulty_handle; handle "L"])))
  ∧ compositeObserver_OnStartSpan doubling tracer_faulty 1 "foo" [] w0
    = Panicked (PanicValue "boom")
        (World ["X start"]
               [CallOnStartSpan observerX 1 "foo" [];
                CallOnStartSpan faulty_observer 1 "foo" []]
               (heap w0)).
Proof.
  split.
  - apply (proj1 (C9_abort_ends_the_fan_out doubling)
             (SetTag "k" "v") 1
             {| span_observers :=
                  mk_slice [handle "X"; faulty_handle; handle "L"] 3 |}
             (world_with [handle "X"; faulty_handle; handle "L"])
             [handle "X"] [handle "L"] faulty_handle
             ["X tag k=v"] ["X tag k=v"] (PanicValue "boom"));
      reflexivity.
  - apply (proj2 (C9_abort_ends_the_fan_out doubling)
             tracer_faulty 1 "foo" [] w0
             (World ["X start"] [CallOnStartSpan observerX 1 "foo" []] (heap w0))
             _ [observerX] [observerL] faulty_observer
             [(handle "X", true)] (PanicValue "boom"));
      reflexivity.
Defined.

Definition tracer_nil : compositeObserver := register_all [observerX; observer_nil].

Definition started_nil : demo_world :=
  final (compositeObserver_OnStartSpan doubling tracer_nil 1 "foo" [] w0).

Lemma C10_witness :
  (∀ u, ∃ u', legacy_OnStartSpan legacy_nil "foo" [] u = Ok None u')
  ∧ observer_nil ∈ elems (observers tracer_nil)
  ∧ compositeObserver_OnStartSpan doubling tracer_nil 1 "foo" [] w0
      = Returned 1 started_nil
  ∧ heap started_nil !! 1
      = Some {| span_observers := mk_slice [handle "X"; None] 2 |}
  ∧ (∀ w : demo_world, ∃ w',
       oldObserver_OnStartSpan {| obs := Some legacy_nil |} 1 "foo" [] w
         = Returned (None, true) w')
  ∧ ∃ (this : compositeSpanObserver) (pre post : list demo_handle),
      heap started_nil !! 1 = Some this
      ∧ elems (span_observers this) = pre ++ None :: post
      ∧ ∀ (n : notification) (w3 : demo_world) (u1 : Journal),
          heap w3 !! 1 = Some this →
          run_members n pre (user w3) = Ok tt u1 →
          notify n 1 w3 =
            Panicked NilDereference
              (World u1 (calls w3 ++ (member_call n <$> pre ++ [None])) (heap w3)).
Proof.
  assert (∀ u : Journal, ∃ u', legacy_OnStartSpan legacy_nil "foo" [] u = Ok None u')
    as Hnil by (intros u; exists u; reflexivity).
  assert (observer_nil ∈ elems (observers tracer_nil)) as Hreg
    by (apply list_elem_of_further, list_elem_of_here).
  assert (compositeObserver_OnStartSpan doubling tracer_nil 1 "foo" [] w0
            = Returned 1 started_nil) as Hstart by reflexivity.
  split; [exact Hnil|]. split; [exact Hreg|]. split; [exact Hstart|].
  split; [reflexivity|].
  exact (C10_nil_handle_becomes_a_member
           doubling legacy_nil tracer_nil 1 "foo" [] w0 started_nil 1
           Hnil Hreg Hstart).
Defined.

(** On that set a finish reaches the nil member after [X]'s handle and
    panics there. *)
Example nil_member_is_called :
  notify (Finish 5) 1 started_nil
    = Panicked NilDereference
        (World (user started_nil ++ ["X finish"])
               (calls started_nil
                  ++ [CallOnFinish (handle "X") 5; CallOnFinish None 5])
               (heap started_nil)).
Proof. reflexivity. Qed.

(** ** Further properties, outside the section and on the set-up *)

(** The slice that [OnStartSpan] makes at the first interested observer has
    capacity [len(o.observers)], room for every handle that can follow: no
    append in the loop outgrows it, so the outcome is the same under every
    growth policy of the runtime.  A start that returns hands out either the
    no-op composite, with the heap as it was, or a set at a location that
    held nothing, whose slice has that capacity and between one and that
    many handles. *)
Theorem OnStartSpan_never_grows_its_slice
    {Span StartSpanOptions FinishOptions Value U : Type}
    (growslice1 growslice2 : nat → nat → nat)
    (o : @compositeObserver Span StartSpanOptions FinishOptions Value U)
    (sp : Span) (operationName : string) (options : StartSpanOptions)
    (w : world) :
  compositeObserver_OnStartSpan growslice1 o sp operationName options w
  = compositeObserver_OnStartSpan growslice2 o sp operationName options w
  ∧ ∀ (l : loc) (w2 : world),
      compositeObserver_OnStartSpan growslice1 o sp operationName options w
        = Returned l w2 →
      (l = noopCompositeSpanObserver ∧ heap w2 = heap w)
      ∨ ∃ this : compositeSpanObserver,
          heap w !! l = None
          ∧ heap w2 = <[l := this]> (heap w)
          ∧ cap (span_observers this) = len (observers o)
          ∧ 1 ≤ len (span_observers this) ≤ cap (span_observers this).
Proof.
  split.
  - rewrite (OnStartSpan_query growslice1), (OnStartSpan_query growslice2).
    reflexivity.
  - intros l w2. rewrite OnStartSpan_query.
    pose proof (query_all_heap (elems (observers o)) sp operationName options w) as Hh.
    destruct (query_all (elems (observers o)) sp operationName options w)
      as [rs w1|] eqn:Hq; [|done].
    simpl in Hh.
    pose proof (query_all_length _ _ _ _ _ _ _ Hq) as HN.
    pose proof (interested_length rs) as HK.
    destruct (interested rs) as [|h hs].
    + intros [= <- <-]. by left.
    + destruct (alloc_fresh
         {| span_observers := mk_slice (h :: hs) (len (observers o)) |} w1)
        as (l' & -> & Hnew).
      intros [= <- <-]. right. eexists. rewrite <- Hh.
      split; [done|]. split; [done|]. split; [done|].
      unfold len in *. simpl in *. lia.
Qed.

Definition started_foo : demo_world :=
  final (compositeObserver_OnStartSpan doubling tracer 1 "foo" [] w0).

Lemma OnStartSpan_asks_every_observer_once_witness :
  compositeObserver_OnStartSpan doubling tracer 1 "foo" [] w0 = Returned 1 started_foo
  ∧ calls started_foo
    = [CallOnStartSpan observerX 1 "foo" [];
       CallOnStartSpan observerL 1 "foo" [];
       CallLegacyOnStartSpan (Some legacyL) "foo" []].
Proof.
  split; [reflexivity|].
  exact (OnStartSpan_asks_every_observer_once
           doubling tracer 1 "foo" [] w0 started_foo 1 eq_refl).
Defined.

Definition queried_X : demo_world :=
  World ["X start"] [CallOnStartSpan observerX 1 "foo" []] (heap w0).

Lemma OnStartSpan_after_append_witness :
  heap_ok w0
  ∧ query_all (elems (observers (register_all [observerX]))) 1 "foo" [] w0
      = Returned [(handle "X", true)] queried_X
  ∧ ContribObserver_OnStartSpan observerL 1 "foo" [] queried_X
      = Returned (handle "L", true) queried_foo
  ∧ ∃ (l : loc) (this : compositeSpanObserver) (w3 : demo_world),
      compositeObserver_OnStartSpan doubling
          (compositeObserver_append doubling (register_all [observerX]) observerL)
          1 "foo" [] w0
        = Returned l w3
      ∧ heap w3 !! l = Some this
      ∧ elems (span_observers this) = [handle "X"; handle "L"]
      ∧ user w3 = user queried_foo ∧ calls w3 = calls queried_foo.
Proof.
  assert (heap_ok w0) as Hok by reflexivity.
  split; [exact Hok|]. split; [reflexivity|]. split; [reflexivity|].
  exact (OnStartSpan_after_append doubling (register_all [observerX]) observerL
           1 "foo" [] w0 queried_X queried_foo [(handle "X", true)]
           (handle "L") true Hok eq_refl eq_refl).
Defined.

Definition tracer_with_nil : compositeObserver :=
  register_all [observerX; nilObserver; observerL].

Lemma OnStartSpan_panics_on_nil_observer_witness :
  elems (observers tracer_with_nil) = [observerX] ++ nilObserver :: [observerL]
  ∧ query_all [observerX] 1 "foo" [] w0 = Returned [(handle "X", true)] queried_X
  ∧ compositeObserver_OnStartSpan doubling tracer_with_nil 1 "foo" [] w0
    = Panicked NilDereference
        (World ["X start"]
               [CallOnStartSpan observerX 1 "foo" [];
                CallOnStartSpan nilObserver 1 "foo" []]
               (heap w0)).
Proof.
  split; [reflexivity|]. split; [reflexivity|].
  exact (OnStartSpan_panics_on_nil_observer doubling tracer_with_nil nilObserver
           1 "foo" [] w0 queried_X [observerX] [observerL] [(handle "X", true)]
           (or_introl eq_refl) eq_refl eq_refl).
Defined.

Definition started_bar : demo_world :=
  final (compositeObserver_OnStartSpan doubling tracer 2 "bar" [] w0).

Lemma old_observer_rules_out_the_noop_witness :
  heap_ok w0
  ∧ observerL ∈ elems (observers tracer)
  ∧ compositeObserver_OnStartSpan doubling tracer 2 "bar" [] w0
      = Returned 1 started_bar
  ∧ 1 ≠ noopCompositeSpanObserver
  ∧ heap w0 !! 1 = None
  ∧ ∃ this, heap started_bar !! 1 = Some this ∧ 1 ≤ len (span_observers this).
Proof.
  assert (heap_ok w0) as Hok by reflexivity.
  assert (observerL ∈ elems (observers tracer)) as Hreg
    by (apply list_elem_of_further, list_elem_of_here).
  split; [exact Hok|]. split; [exact Hreg|]. split; [reflexivity|].
  exact (old_observer_rules_out_the_noop doubling tracer {| obs := Some legacyL |}
           2 "bar" [] w0 started_bar 1 Hok Hreg eq_refl).
Defined.

Definition finished_foo : demo_world := final (notify (Finish 9) 1 started_foo).

Lemma only_the_noop_is_empty_witness :
  reachable doubling finished_foo
  ∧ heap_ok finished_foo
  ∧ ∀ (l : loc) (this : compositeSpanObserver),
      heap finished_foo !! l = Some this →
      l ≠ noopCompositeSpanObserver →
      1 ≤ len (span_observers this) ≤ cap (span_observers this).
Proof.
  assert (reachable doubling finished_foo) as Hreach.
  { apply reachable_notify, reachable_start, reachable_init. }
  split; [exact Hreach|].
  exact (only_the_noop_is_empty doubling finished_foo Hreach).
Defined.

Lemma start_then_notify_reaches_the_interested_witness :
  heap_ok w0
  ∧ query_all (elems (observers tracer)) 1 "foo" [] w0
      = Returned answers_foo queried_foo
  ∧ run_members (Finish 9) (interested answers_foo) (user queried_foo)
      = Ok tt ["X start"; "L start"; "X finish"; "L finish"]
  ∧ ∃ w3 : demo_world,
      bind (compositeObserver_OnStartSpan doubling tracer 1 "foo" [])
           (λ l, notify (Finish 9) l) w0
        = Returned tt w3
      ∧ user w3 = ["X start"; "L start"; "X finish"; "L finish"]
      ∧ calls w3
        = calls queried_foo
          ++ [CallOnFinish (handle "X") 9; CallOnFinish (handle "L") 9]
      ∧ heap w0 ⊆ heap w3.
Proof.
  assert (heap_ok w0) as Hok by reflexivity.
  split; [exact Hok|]. split; [reflexivity|]. split; [reflexivity|].
  exact (start_then_notify_reaches_the_interested doubling (Finish 9) tracer
           1 "foo" [] w0 queried_foo answers_foo
           ["X start"; "L start"; "X finish"; "L finish"] Hok eq_refl eq_refl).
Defined.

Lemma notifications_forward_every_time_witness :
  heap (world_with [handle "X"; handle "L"]) !! 1
    = Some {| span_observers := mk_slice [handle "X"; handle "L"] 2 |}
  ∧ run_notifications [Finish 9; Finish 9] [handle "X"; handle "L"] []
      = Ok tt ["X finish"; "L finish"; "X finish"; "L finish"]
  ∧ for_range [Finish 9; Finish 9] (λ n, notify n 1)
      (world_with [handle "X"; handle "L"])
    = Returned tt
        (World ["X finish"; "L finish"; "X finish"; "L finish"]
               [CallOnFinish (handle "X") 9; CallOnFinish (handle "L") 9;
                CallOnFinish (handle "X") 9; CallOnFinish (handle "L") 9]
               (heap (world_with [handle "X"; handle "L"]))).
Proof.
  split; [reflexivity|]. split; [reflexivity|].
  exact (notifications_forward_every_time [Finish 9; Finish 9] 1
           {| span_observers := mk_slice [handle "X"; handle "L"] 2 |}
           (world_with [handle "X"; handle "L"])
           ["X finish"; "L finish"; "X finish"; "L finish"] eq_refl eq_refl).
Defined.

Lemma notify_calls_a_prefix_of_the_members_witness :
  heap (world_with [handle "X"; faulty_handle; handle "L"]) !! 1
    = Some {| span_observers :=
                mk_slice [handle "X"; faulty_handle; handle "L"] 3 |}
  ∧ ∃ called : list demo_handle,
      called `prefix_of` [handle "X"; faulty_handle; handle "L"]
      ∧ calls (final (notify (Finish 9) 1
                        (world_with [handle "X"; faulty_handle; handle "L"])))
        = [] ++ (member_call (Finish 9) <$> called)
      ∧ ∀ w', notify (Finish 9) 1
                (world_with [handle "X"; faulty_handle; handle "L"])
              = Returned tt w' →
              called = [handle "X"; faulty_handle; handle "L"].
Proof.
  split; [reflexivity|].
  exact (notify_calls_a_prefix_of_the_members (Finish 9) 1
           {| span_observers :=
                mk_slice [handle "X"; faulty_handle; handle "L"] 3 |}
           (world_with [handle "X"; faulty_handle; handle "L"]) eq_refl).
Defined.

Lemma OnStartSpan_never_grows_its_slice_witness :
  compositeObserver_OnStartSpan doubling tracer 2 "bar" [] w0 = Returned 1 started_bar
  ∧ compositeObserver_OnStartSpan (λ _ needed, needed) tracer 2 "bar" [] w0
    = Returned 1 started_bar
  ∧ ((1 = noopCompositeSpanObserver ∧ heap started_bar = heap w0)
     ∨ ∃ this : compositeSpanObserver,
         heap w0 !! 1 = None
         ∧ heap started_bar = <[1 := this]> (heap w0)
         ∧ cap (span_observers this) = 2
         ∧ 1 ≤ len (span_observers this) ≤ cap (span_observers this)).
Proof.
  pose proof (OnStartSpan_never_grows_its_slice
                doubling (λ _ needed, needed) tracer 2 "bar" [] w0) as [Hsame Hcap].
  split; [reflexivity|]. split; [by rewrite <- Hsame|].
  exact (Hcap 1 started_bar eq_refl).
Defined.
